(** * Wild drop: wallet search and reward-distribution chart of [odyssey_app.py]

    A shallow embedding of the Streamlit script [odyssey_app.py]:
    [load_data], [process_wallet] and the three blocks of [main] (the wallet
    search, the construction of the Plotly figure and the result section),
    followed by the properties of the wallet key, of the search and of the
    figure. *)

From Stdlib Require Import ZArith NArith QArith Lia String Ascii.
From stdpp Require Import base decidable option list numbers.

Set Default Proof Using "Type".
Local Open Scope Z_scope.

(** ** Python strings

    A Python [str] is a sequence of Unicode code points; [len] counts code
    points, so a string is a list of code points and the ellipsis of the
    f-string in [process_wallet] is the single code point U+2026. *)

Abbreviation str := (list N).

(** ASCII literals of the examples, one code point per character. *)
Definition py (s : string) : str :=
  map N_of_ascii (list_ascii_of_string s).

Definition ellipsis : N := 0x2026%N.

(** LATIN CAPITAL LETTER I WITH DOT ABOVE, and the two code points of its
    lowercase form (i, COMBINING DOT ABOVE). *)
Definition dotted_I : N := 0x130%N.
Definition small_i : N := 0x69%N.
Definition combining_dot : N := 0x307%N.

(** [len(s)], a Python integer. *)
Definition len {A} (s : list A) : Z := Z.of_nat (length s).

(** *** [str.lower]

    [str.lower] replaces every code point by its full Unicode lowercase
    mapping, and a capital sigma by the final or the medial small sigma
    according to its neighbours.  The table below is that mapping on the
    Basic Latin and Latin-1 blocks (U+0000..U+00FF), on U+0130, the only code
    point whose lowercase mapping has more than one code point, and on the
    code points without case.  It leaves out the capital letters above U+00FF
    other than U+0130, each of which Python maps to one lowercase code point,
    and the rule of the final sigma.  So [lower] has the length of
    [str.lower] on every string, and it is [str.lower] on the strings of
    [tabled] characters; the properties that need more of [lower] than its
    length are stated for those strings. *)
Definition lower_cp (c : N) : list N :=
  if ((0x41 <=? c) && (c <=? 0x5A))%N then [(c + 32)%N]
  else if ((0xC0 <=? c) && (c <=? 0xDE) && negb (c =? 0xD7))%N then [(c + 32)%N]
  else if (c =? dotted_I)%N then [small_i; combining_dot]
  else [c].

Definition lower (s : str) : str := flat_map lower_cp s.

(** *** Slices

    [s[:k]] and [s[k:]] for an integer [k]: a negative bound counts from the
    end, and a bound outside the string is clamped to it; a slice never
    raises. *)
Definition slice_bound (n k : Z) : nat :=
  Z.to_nat (Z.max 0 (Z.min n (if k <? 0 then k + n else k))).

Definition slice_to {A} (k : Z) (s : list A) : list A :=
  take (slice_bound (len s) k) s.

Definition slice_from {A} (k : Z) (s : list A) : list A :=
  drop (slice_bound (len s) k) s.

(** ** [process_wallet] (lines 30-36) *)
Definition process_wallet (wallet : str) : str :=
  if 10 <=? len wallet then
    let front := lower (slice_to 6 wallet) in
    let back := lower (slice_from (-4) wallet) in
    front ++ ellipsis :: back
  else lower wallet.

(** ** The allocation table

    A row of [wshards2.csv] as [pd.read_csv] yields it, and a row of the data
    frame [df] that [load_data] returns, which has the added column
    [Wallet_lower].  The frame keeps the default [RangeIndex], so the label of
    a row is its position.  The two amounts are the numbers of a numeric
    column (float64 or int64); a column that pandas reads with another dtype,
    as it does for an integer beyond 64 bits, is not a table of this model. *)
Record csv_row := CsvRow {
  csv_Name : str;
  csv_Wallet : str;
  csv_Odyssey_Drop : Q;
  csv_wShards : Q
}.

Record row := Row {
  Name : str;
  Wallet : str;
  Odyssey_Drop : Q;
  wShards : Q;
  Wallet_lower : str
}.

Abbreviation frame := (list row).

(** ** [load_data] (lines 17-27)

    The argument is the outcome of [pd.read_csv('wshards2.csv')], [None] when
    it raises; the [except] branch then returns [None].  On the object column
    [Wallet], [.str.lower()] applies [str.lower] to each wallet. *)
Definition load_data (read_csv : option (list csv_row)) : option frame :=
  csv ← read_csv;
  Some (map (fun r => {| Name := csv_Name r;
                         Wallet := csv_Wallet r;
                         Odyssey_Drop := csv_Odyssey_Drop r;
                         wShards := csv_wShards r;
                         Wallet_lower := lower (csv_Wallet r) |}) csv).

(** ** The search block of [main] (lines 55-71) *)
Record search_result := SearchResult {
  search_index : option Z;
  name : option str;
  reward : option Q;
  wshards : option Q
}.

Definition no_result : search_result :=
  {| search_index := None; name := None; reward := None; wshards := None |}.

(** A non-empty string is truthy. *)
Definition truthy (s : str) : bool :=
  match s with [] => false | _ => true end.

(** [df[df['Wallet_lower'] == search_wallet]]: the selected rows keep their
    index labels. *)
Definition select_wallet (df : frame) (search_wallet : str) : list (Z * row) :=
  filter (fun ir => Wallet_lower ir.2 = search_wallet)
         (imap (fun i r => (Z.of_nat i, r)) df).

Definition search (df : frame) (search_button : bool) (wallet_input : str)
  : search_result :=
  if search_button && truthy wallet_input then
    let search_wallet := process_wallet wallet_input in
    let result := select_wallet df search_wallet in
    match result with
    | [] => no_result
    | (i, r) :: _ =>
        {| name := Some (Name r);
           reward := Some (Odyssey_Drop r);
           wshards := Some (wShards r);
           search_index := Some i |}
    end
  else no_result.

(** ** Numbers of the axis ranges

    [Series.max()] is [nan] on an empty column.  [np.log10] returns [-inf] at
    zero and [nan] at a negative number or at [nan], with a warning and
    without raising; the logarithm of a positive number is kept as the term
    [Log10 q]. *)
Inductive scalar :=
| Finite (q : Q)
| NaN.

Inductive log_value :=
| Log10 (q : Q)
| MinusInf
| LogNaN.

Definition qmax (a b : Q) : Q := if Qle_bool a b then b else a.

Definition series_max (column : list Q) : scalar :=
  match column with
  | [] => NaN
  | q :: rest => Finite (foldl qmax q rest)
  end.

Definition np_log10 (v : scalar) : log_value :=
  match v with
  | Finite q =>
      match (0 ?= q)%Q with
      | Lt => Log10 q
      | Eq => MinusInf
      | Gt => LogNaN
      end
  | NaN => LogNaN
  end.

(** ** The figure

    The part of a [go.Figure] that [main] sets: the two scatter traces and
    the layout. *)
Inductive colors :=
| ByValue (values : list Q)
| ByName (names : list string).

Record marker_line := MarkerLine {
  line_width : list Z;
  line_color : list string
}.

Record colorbar := Colorbar {
  colorbar_title : string;
  colorbar_x : Q
}.

Record marker := Marker {
  marker_color : colors;
  marker_colorscale : option string;
  marker_showscale : option bool;
  marker_colorbar : option colorbar;
  marker_size : list Z;
  marker_line_ : marker_line
}.

(** A hover text is an f-string: literal text and formatted fields, the
    number formats [:,.2f] and [:,.0f] kept as [Fixed 2] and [Fixed 0]. *)
Inductive piece :=
| Lit (s : string)
| Int (z : Z)
| Text (s : str)
| Fixed (digits : nat) (q : Q).

Record scatter := Scatter {
  trace_x : list Z;
  trace_y : list Q;
  trace_name : string;
  trace_mode : string;
  trace_marker : marker;
  trace_yaxis : option string;
  trace_hovertext : list (list piece);
  trace_hoverinfo : string
}.

Record axis := Axis {
  axis_title : option string;
  axis_overlaying : option string;
  axis_side : option string;
  axis_type : option string;
  axis_range : option (log_value * log_value);
  axis_tickformat : option string;
  axis_title_standoff : option Z;
  axis_gridcolor : string;
  axis_color : string
}.

Record legend := Legend {
  legend_yanchor : string;
  legend_y : Q;
  legend_xanchor : string;
  legend_x : Q;
  legend_bgcolor : string;
  legend_bordercolor : string;
  legend_font_color : string;
  legend_orientation : string
}.

Record layout := Layout {
  layout_title : string;
  layout_xaxis_title : string;
  layout_yaxis_title : string;
  layout_showlegend : bool;
  layout_height : Z;
  layout_margin : Z * Z * Z * Z;
  layout_plot_bgcolor : string;
  layout_paper_bgcolor : string;
  layout_font_color : string;
  layout_yaxis : axis;
  layout_yaxis2 : axis;
  layout_xaxis : axis;
  layout_legend : legend
}.

Record figure := Figure {
  fig_data : list scatter;
  fig_layout : layout
}.

(** [l[i] = v] on a Python list: an index from [-len(l)] to [-1] counts from
    the end, and an index outside [-len(l) .. len(l)-1] raises [IndexError]
    ([None]). *)
Definition setitem {A} (l : list A) (i : Z) (v : A) : option (list A) :=
  let n := len l in
  if (i <? - n) || (n <=? i) then None
  else Some (<[Z.to_nat (if i <? 0 then i + n else i) := v]> l).

Definition df_index (df : frame) : list Z :=
  imap (fun i _ => Z.of_nat i) df.

(** The rows with their index labels, as [df.apply(..., axis=1)] visits
    them ([row.name] is the label). *)
Definition df_apply {B} (f : Z -> row -> B) (df : frame) : list B :=
  imap (fun i r => f (Z.of_nat i) r) df.

Definition green : string := "#00ff00".
Definition white : string := "white".
Definition translucent_red : string := "rgba(255, 0, 0, 0.5)".
Definition opaque_red : string := "rgba(255, 0, 0, 0.8)".
Definition grid_grey : string := "rgba(128, 128, 128, 0.2)".
Definition dark : string := "rgb(17, 17, 17)".

Definition hover_drop (i : Z) (r : row) : list piece :=
  [ Lit "Rank: "; Int (i + 1);
    Lit "<br>Name: "; Text (Name r);
    Lit "<br>Wallet: "; Text (Wallet r);
    Lit "<br>$WILD Drop: "; Fixed 2 (Odyssey_Drop r);
    Lit "<br>wShards: "; Fixed 0 (wShards r) ].

Definition hover_wshards (i : Z) (r : row) : list piece :=
  [ Lit "Rank: "; Int (i + 1);
    Lit "<br>wShards: "; Fixed 0 (wShards r) ].

(** ** The figure block of [main] (lines 76-195)

    The block reads [df] and [search_index] only.  [None] is an [IndexError]
    raised by one of the assignments of lines 86-88 and 124-127.  [np.log10]
    raises [TypeError] on a value that has no numeric dtype; the rows of this
    model hold numeric values only, on which it does not raise. *)

(** Lines 79-88. *)
Definition drop_markers (df : frame) (search_index : option Z)
  : option (list Z * list Z * list string) :=
  let marker_sizes := replicate (length df) 6 in
  let marker_line_width := replicate (length df) 0 in
  let marker_line_color := replicate (length df) white in
  match search_index with
  | Some i =>
      marker_sizes ← setitem marker_sizes i 12;
      marker_line_width ← setitem marker_line_width i 2;
      marker_line_color ← setitem marker_line_color i green;
      Some (marker_sizes, marker_line_width, marker_line_color)
  | None => Some (marker_sizes, marker_line_width, marker_line_color)
  end.

(** Lines 117-127. *)
Definition wshard_markers (df : frame) (search_index : option Z)
  : option (list Z * list string * list Z * list string) :=
  let wshard_sizes := replicate (length df) 4 in
  let wshard_colors := replicate (length df) translucent_red in
  let wshard_line_width := replicate (length df) 0 in
  let wshard_line_color := replicate (length df) white in
  match search_index with
  | Some i =>
      wshard_sizes ← setitem wshard_sizes i 8;
      wshard_colors ← setitem wshard_colors i opaque_red;
      wshard_line_width ← setitem wshard_line_width i 2;
      wshard_line_color ← setitem wshard_line_color i green;
      Some (wshard_sizes, wshard_colors, wshard_line_width, wshard_line_color)
  | None =>
      Some (wshard_sizes, wshard_colors, wshard_line_width, wshard_line_color)
  end.

(** Lines 91-114. *)
Definition drop_trace (df : frame) (m : list Z * list Z * list string)
  : scatter :=
  let '(marker_sizes, marker_line_width, marker_line_color) := m in
  let marker_colors := map Odyssey_Drop df in
  {| trace_x := df_index df;
     trace_y := map Odyssey_Drop df;
     trace_name := "$WILD Drop";
     trace_mode := "markers";
     trace_marker :=
       {| marker_color := ByValue marker_colors;
          marker_colorscale := Some "Viridis"%string;
          marker_showscale := Some true;
          marker_colorbar :=
            Some {| colorbar_title := "$WILD Drop"; colorbar_x := 12 # 10 |};
          marker_size := marker_sizes;
          marker_line_ :=
            {| line_width := marker_line_width;
               line_color := marker_line_color |} |};
     trace_yaxis := None;
     trace_hovertext := df_apply hover_drop df;
     trace_hoverinfo := "text" |}.

(** Lines 130-148. *)
Definition wshards_trace (df : frame)
    (m : list Z * list string * list Z * list string) : scatter :=
  let '(wshard_sizes, wshard_colors, wshard_line_width, wshard_line_color) :=
    m in
  {| trace_x := map (fun i => i + 25) (df_index df);
     trace_y := map wShards df;
     trace_name := "wShards";
     trace_mode := "markers";
     trace_marker :=
       {| marker_color := ByName wshard_colors;
          marker_colorscale := None;
          marker_showscale := None;
          marker_colorbar := None;
          marker_size := wshard_sizes;
          marker_line_ :=
            {| line_width := wshard_line_width;
               line_color := wshard_line_color |} |};
     trace_yaxis := Some "y2"%string;
     trace_hovertext := df_apply hover_wshards df;
     trace_hoverinfo := "text" |}.

(** Lines 151-195. *)
Definition log_range (column : list Q) : log_value * log_value :=
  (np_log10 (Finite 1), np_log10 (series_max column)).

Definition update_layout (df : frame) : layout :=
  {| layout_title := "Distribution of Rewards (Log Scale)";
     layout_xaxis_title := "Rank";
     layout_yaxis_title := "$WILD Drop";
     layout_showlegend := true;
     layout_height := 600;
     layout_margin := (200, 100, 50, 50);
     layout_plot_bgcolor := dark;
     layout_paper_bgcolor := dark;
     layout_font_color := white;
     layout_yaxis :=
       {| axis_title := None;
          axis_overlaying := None;
          axis_side := None;
          axis_type := Some "log"%string;
          axis_range := Some (log_range (map Odyssey_Drop df));
          axis_tickformat := Some ".0f"%string;
          axis_title_standoff := Some 20;
          axis_gridcolor := grid_grey;
          axis_color := white |};
     layout_yaxis2 :=
       {| axis_title := Some "wShards"%string;
          axis_overlaying := Some "y"%string;
          axis_side := Some "right"%string;
          axis_type := Some "log"%string;
          axis_range := Some (log_range (map wShards df));
          axis_tickformat := Some ".0f"%string;
          axis_title_standoff := Some 60;
          axis_gridcolor := grid_grey;
          axis_color := white |};
     layout_xaxis :=
       {| axis_title := None;
          axis_overlaying := None;
          axis_side := None;
          axis_type := None;
          axis_range := None;
          axis_tickformat := None;
          axis_title_standoff := None;
          axis_gridcolor := grid_grey;
          axis_color := white |};
     layout_legend :=
       {| legend_yanchor := "bottom";
          legend_y := 102 # 100;
          legend_xanchor := "center";
          legend_x := 5 # 10;
          legend_bgcolor := dark;
          legend_bordercolor := white;
          legend_font_color := white;
          legend_orientation := "h" |} |}.

Definition build (df : frame) (search_index : option Z) : option figure :=
  m ← drop_markers df search_index;
  let drop := drop_trace df m in
  w ← wshard_markers df search_index;
  let shards := wshards_trace df w in
  Some {| fig_data := [drop; shards]; fig_layout := update_layout df |}.

(** ** [main] (lines 39-215)

    [st.cache_data] keeps the value [load_data] returned the first time and
    serves it to every later run of the script; it is the one piece of state
    that outlives a run. *)
Definition cache := option (option frame).

Definition cached_load_data (read_csv : option (list csv_row)) (c : cache)
  : option frame * cache :=
  match c with
  | Some df => (df, c)
  | None => let df := load_data read_csv in (df, Some df)
  end.

(** The section under the heading of line 200. *)
Inductive rewards_section :=
| NoSearch
| Estimate (name : str) (wshards reward : option Q)
| NoMatch.

(** Lines 201-215. *)
Definition estimated_rewards (search_button : bool) (wallet_input : str)
    (res : search_result) : rewards_section :=
  if search_button && truthy wallet_input then
    match name res with
    | Some n => Estimate n (wshards res) (reward res)
    | None => NoMatch
    end
  else NoSearch.

(** What one run of the script shows: the error message of [load_data] and
    nothing else, or the figure and the rewards section; [Raised] is an
    exception that leaves the figure block. *)
Inductive outcome :=
| DataError
| Page (fig : figure) (section : rewards_section)
| Raised.

Definition main (read_csv : option (list csv_row)) (c : cache)
    (search_button : bool) (wallet_input : str) : outcome * cache :=
  let '(df, c) := cached_load_data read_csv c in
  match df with
  | None => (DataError, c)
  | Some df =>
      let res := search df search_button wallet_input in
      match build df (search_index res) with
      | None => (Raised, c)
      | Some fig =>
          (Page fig (estimated_rewards search_button wallet_input res), c)
      end
  end.


Definition demo_df : frame :=
  [ Row (py "alice") (py "0xABCDEF1234") 100 5 (py "0xabcdef1234");
    Row (py "bob") (py "0x9988776655") 50 0 (py "0x9988776655") ].

(** A table whose wallets are stored abbreviated, the form [process_wallet]
    produces. *)
Definition short_csv : list csv_row :=
  [ CsvRow (py "alice") (py "0xABCD" ++ ellipsis :: py "1234") 100 5;
    CsvRow (py "bob") (py "0x9988" ++ ellipsis :: py "6655") 50 0 ].

Definition short_df : frame :=
  [ Row (py "alice") (py "0xABCD" ++ ellipsis :: py "1234") 100 5
        (py "0xabcd" ++ ellipsis :: py "1234");
    Row (py "bob") (py "0x9988" ++ ellipsis :: py "6655") 50 0
        (py "0x9988" ++ ellipsis :: py "6655") ].

Definition zero_df : frame :=
  [ Row (py "carol") (py "0xcc") 0 0 (py "0xcc") ].

(** A table with the same key twice. *)
Definition twin_df : frame :=
  [ Row (py "alice") (py "0xABCD" ++ ellipsis :: py "1234") 100 5
        (py "0xabcd" ++ ellipsis :: py "1234");
    Row (py "alias") (py "0xabcd" ++ ellipsis :: py "1234") 7 1
        (py "0xabcd" ++ ellipsis :: py "1234") ].

(** ** Vocabulary of the properties *)


Definition found (i : nat) (r : row) : search_result :=
  {| search_index := Some (Z.of_nat i);
     name := Some (Name r);
     reward := Some (Odyssey_Drop r);
     wshards := Some (wShards r) |}.

(** The marker arrays without a highlight, and with the point [k]
    highlighted. *)
Definition plain_drop_markers (n : nat) : list Z * list Z * list string :=
  (replicate n 6, replicate n 0, replicate n white).

Definition plain_wshard_markers (n : nat)
  : list Z * list string * list Z * list string :=
  (replicate n 4, replicate n translucent_red, replicate n 0,
   replicate n white).

Definition lit_drop_markers (n k : nat) : list Z * list Z * list string :=
  (<[k := 12]> (replicate n 6), <[k := 2]> (replicate n 0),
   <[k := green]> (replicate n white)).

Definition lit_wshard_markers (n k : nat)
  : list Z * list string * list Z * list string :=
  (<[k := 8]> (replicate n 4), <[k := opaque_red]> (replicate n translucent_red),
   <[k := 2]> (replicate n 0), <[k := green]> (replicate n white)).

(** The marker of the point [i] of a trace: size, border width and border
    colour; and its fill colour when the trace is coloured by name. *)
Definition point_marker (t : scatter) (i : nat) : option (Z * Z * string) :=
  size ← marker_size (trace_marker t) !! i;
  width ← line_width (marker_line_ (trace_marker t)) !! i;
  color ← line_color (marker_line_ (trace_marker t)) !! i;
  Some (size, width, color).

Definition point_fill (t : scatter) (i : nat) : option string :=
  match marker_color (trace_marker t) with
  | ByName names => names !! i
  | ByValue _ => None
  end.

Definition marker_sizes_of (fig : figure) : list (list Z) :=
  map (fun t => marker_size (trace_marker t)) (fig_data fig).

(** What the upper end of a range says about its column. *)
Definition upper_end (column : list Q) (hi : log_value) : Prop :=
  match hi with
  | Log10 m =>
      m ∈ column /\ (0 < m)%Q /\ forall v, v ∈ column -> (v <= m)%Q
  | MinusInf =>
      (exists m, m ∈ column /\ (m == 0)%Q) /\
      forall v, v ∈ column -> (v <= 0)%Q
  | LogNaN => column = [] \/ forall v, v ∈ column -> (v < 0)%Q
  end.

Definition axis_ranges (fig : figure)
  : option (log_value * log_value) * option (log_value * log_value) :=
  (axis_range (layout_yaxis (fig_layout fig)),
   axis_range (layout_yaxis2 (fig_layout fig))).

(** The characters on which the table of [lower_cp] is the lowercase mapping
    of [str.lower]: those of Basic Latin and Latin-1, the ellipsis, U+0130
    and the combining dot of its lowercase form.  On a string of such
    characters [str.lower] works character by character, and [lower] is
    [str.lower]. *)
Definition tabled (c : N) : Prop :=
  (c < 0x100)%N \/ c = ellipsis \/ c = dotted_I \/ c = combining_dot.

#[global] Instance tabled_dec (c : N) : Decision (tabled c).
Proof. unfold tabled. apply _. Defined.

(** The capital letters among them: A-Z, the Latin-1 capitals
    U+00C0..U+00DE without the multiplication sign, and U+0130. *)
Definition capital (c : N) : Prop :=
  (0x41 <= c <= 0x5A)%N \/
  ((0xC0 <= c <= 0xDE)%N /\ c <> 0xD7%N) \/
  c = dotted_I.

(** Two strings of such characters that agree up to case: the same length,
    and at every position two characters of the table with the same
    lowercase form. *)
Definition same_case (s s' : str) : Prop :=
  Forall2 (fun c c' => tabled c /\ tabled c' /\ lower_cp c = lower_cp c') s s'.

#[global] Instance same_case_dec (s s' : str) : Decision (same_case s s').
Proof. unfold same_case. apply _. Defined.

(** A key that a second normalization leaves as it is: fewer than ten
    characters, or eleven characters with the ellipsis as the seventh. *)
Definition settled (n : str) : Prop :=
  len n < 10 \/ (len n = 11 /\ n !! 6%nat = Some ellipsis).

(** ** Strings: lowercase and slices *)

Lemma lower_app (a b : str) : lower (a ++ b) = lower a ++ lower b.
Proof. apply flat_map_app. Qed.

Lemma lower_cons (c : N) (s : str) : lower (c :: s) = lower_cp c ++ lower s.
Proof. reflexivity. Qed.

Lemma lower_cp_ellipsis : lower_cp ellipsis = [ellipsis].
Proof. reflexivity. Qed.

Lemma lower_cp_length_pos (c : N) : (1 <= length (lower_cp c))%nat.
Proof. unfold lower_cp. repeat case_match; simpl; lia. Qed.

Lemma lower_cp_length (c : N) : c <> dotted_I -> length (lower_cp c) = 1%nat.
Proof.
  intros Hc. unfold lower_cp. repeat case_match; try reflexivity.
  apply N.eqb_eq in H1. contradiction.
Qed.

Lemma lower_cp_small (c : N) :
  (0x61 <= c <= 0x7A)%N \/ (0xE0 <= c <= 0xFE)%N -> lower_cp c = [c].
Proof.
  intros Hc. unfold lower_cp.
  replace ((0x41 <=? c) && (c <=? 0x5A))%N with false
    by (symmetry; apply andb_false_iff; right; apply N.leb_gt; lia).
  replace ((0xC0 <=? c) && (c <=? 0xDE))%N with false
    by (symmetry; apply andb_false_iff;
        destruct Hc; [left | right]; apply N.leb_gt; lia).
  replace (c =? dotted_I)%N with false
    by (symmetry; apply N.eqb_neq; unfold dotted_I; lia).
  reflexivity.
Qed.

Lemma lower_singleton (c : N) : lower [c] = lower_cp c.
Proof. unfold lower. simpl. apply app_nil_r. Qed.

Lemma lower_length_ge (s : str) : (length s <= length (lower s))%nat.
Proof.
  induction s as [| c s IH]; [reflexivity |].
  rewrite lower_cons, length_app. pose proof (lower_cp_length_pos c).
  simpl. lia.
Qed.

Lemma lower_length (s : str) :
  dotted_I ∉ s -> length (lower s) = length s.
Proof.
  induction s as [| c s IH]; intros Hs; [reflexivity |].
  apply not_elem_of_cons in Hs as [Hc Hs].
  rewrite lower_cons, length_app, lower_cp_length, IH by auto. reflexivity.
Qed.

Lemma lower_cp_fixed (c : N) : Forall (fun d => lower_cp d = [d]) (lower_cp c).
Proof.
  unfold lower_cp.
  destruct ((0x41 <=? c) && (c <=? 0x5A))%N eqn:H1.
  { apply andb_prop in H1 as [Ha Hb]. apply N.leb_le in Ha, Hb.
    apply Forall_singleton, lower_cp_small. lia. }
  destruct ((0xC0 <=? c) && (c <=? 0xDE) && negb (c =? 0xD7))%N eqn:H2.
  { apply andb_prop in H2 as [H2 _]. apply andb_prop in H2 as [Ha Hb].
    apply N.leb_le in Ha, Hb.
    apply Forall_singleton, lower_cp_small. lia. }
  destruct (c =? dotted_I)%N eqn:H3.
  { repeat constructor. }
  apply Forall_singleton. unfold lower_cp. rewrite H1, H2, H3. reflexivity.
Qed.

Lemma lower_fixed (s : str) : Forall (fun d => lower_cp d = [d]) (lower s).
Proof.
  induction s as [| c s IH]; [constructor |].
  rewrite lower_cons. apply Forall_app. split; [apply lower_cp_fixed | exact IH].
Qed.

Lemma fixed_lower (s : str) :
  Forall (fun d => lower_cp d = [d]) s -> lower s = s.
Proof.
  induction 1 as [| c s Hc _ IH]; [reflexivity |].
  rewrite lower_cons, Hc, IH. reflexivity.
Qed.

Lemma lower_cp_not_capital (c : N) :
  Forall (fun d => ~ capital d) (lower_cp c).
Proof.
  unfold lower_cp.
  destruct (N.leb_spec 0x41 c), (N.leb_spec c 0x5A), (N.leb_spec 0xC0 c),
    (N.leb_spec c 0xDE), (N.eqb_spec c 0xD7), (N.eqb_spec c dotted_I);
    simpl; repeat (apply Forall_cons_2 || apply Forall_nil_2);
    unfold capital, dotted_I, small_i, combining_dot in *; lia.
Qed.

Lemma lower_not_capital (s : str) : Forall (fun d => ~ capital d) (lower s).
Proof.
  induction s as [| c s IH]; [constructor |].
  rewrite lower_cons. apply Forall_app.
  split; [apply lower_cp_not_capital | exact IH].
Qed.

Lemma lower_cp_tabled (c : N) : tabled c -> Forall tabled (lower_cp c).
Proof.
  intros Hc. unfold lower_cp.
  destruct (N.leb_spec 0x41 c), (N.leb_spec c 0x5A), (N.leb_spec 0xC0 c),
    (N.leb_spec c 0xDE), (N.eqb_spec c 0xD7), (N.eqb_spec c dotted_I);
    simpl; repeat (apply Forall_cons_2 || apply Forall_nil_2);
    unfold tabled, ellipsis, dotted_I, small_i, combining_dot in *; lia.
Qed.

Lemma lower_tabled (s : str) : Forall tabled s -> Forall tabled (lower s).
Proof.
  induction 1 as [| c s Hc _ IH]; [constructor |].
  rewrite lower_cons. apply Forall_app.
  split; [apply lower_cp_tabled; exact Hc | exact IH].
Qed.

Lemma slice_to_take {A} (k : nat) (s : list A) :
  slice_to (Z.of_nat k) s = take k s.
Proof.
  unfold slice_to, slice_bound, len.
  destruct (Z.ltb_spec (Z.of_nat k) 0) as [Hk | _]; [lia |].
  destruct (Nat.le_gt_cases k (length s)) as [Hle | Hgt].
  - f_equal. lia.
  - rewrite !firstn_all2 by lia. reflexivity.
Qed.

Lemma slice_from_last {A} (k : nat) (s : list A) :
  (0 < k)%nat -> slice_from (- Z.of_nat k) s = drop (length s - k) s.
Proof.
  intros Hk. unfold slice_from, slice_bound, len.
  destruct (Z.ltb_spec (- Z.of_nat k) 0) as [_ | Hneg]; [| lia].
  f_equal. lia.
Qed.

Lemma process_wallet_long (s : str) :
  10 <= len s ->
  process_wallet s =
    lower (take 6 s) ++ ellipsis :: lower (drop (length s - 4) s).
Proof.
  intros Hs. unfold process_wallet.
  destruct (Z.leb_spec 10 (len s)) as [_ | Hlt]; [| lia].
  change 6 with (Z.of_nat 6). change (-4) with (- Z.of_nat 4).
  rewrite slice_to_take, slice_from_last by lia. reflexivity.
Qed.

Lemma process_wallet_short (s : str) :
  len s < 10 -> process_wallet s = lower s.
Proof.
  intros Hs. unfold process_wallet.
  destruct (Z.leb_spec 10 (len s)) as [Hge | _]; [lia | reflexivity].
Qed.

Lemma process_wallet_length_ge (s : str) :
  10 <= len s -> 11 <= len (process_wallet s).
Proof.
  intros Hs. rewrite process_wallet_long by exact Hs. unfold len in *.
  rewrite length_app. simpl.
  pose proof (lower_length_ge (take 6 s)) as Hf.
  pose proof (lower_length_ge (drop (length s - 4) s)) as Hb.
  rewrite length_take in Hf. rewrite length_drop in Hb. lia.
Qed.

Lemma process_wallet_length (s : str) :
  10 <= len s ->
  dotted_I ∉ take 6 s -> dotted_I ∉ drop (length s - 4) s ->
  len (process_wallet s) = 11.
Proof.
  intros Hs Hf Hb. rewrite process_wallet_long by exact Hs. unfold len in *.
  rewrite length_app. simpl.
  rewrite !lower_length by assumption.
  rewrite length_take, length_drop. lia.
Qed.

Lemma not_elem_of_take {A} (x : A) (n : nat) (l : list A) :
  x ∉ l -> x ∉ take n l.
Proof.
  intros Hx Hin. apply Hx. rewrite <- (take_drop n l).
  apply elem_of_app. left. exact Hin.
Qed.

Lemma not_elem_of_drop {A} (x : A) (n : nat) (l : list A) :
  x ∉ l -> x ∉ drop n l.
Proof.
  intros Hx Hin. apply Hx. rewrite <- (take_drop n l).
  apply elem_of_app. right. exact Hin.
Qed.

(** ** The wallet key *)

(** C2. For every string [s]: when [len(s) >= 10], [process_wallet s] is the
    lowercase of the first six characters, the ellipsis, and the lowercase
    of the last four characters (the slice [s[-4:]] has exactly four
    characters); when [len(s) < 10] it is the lowercase of [s]. *)
Theorem process_wallet_rule (s : str) :
  (10 <= len s ->
   (process_wallet s =
      lower (take 6 s) ++ [ellipsis] ++ lower (drop (length s - 4) s)) /\
   (length (take 6 s) = 6%nat) /\
   (length (drop (length s - 4) s) = 4%nat)) /\
  (len s < 10 -> process_wallet s = lower s).
Proof.
  split.
  - intros Hs. split; [apply process_wallet_long; exact Hs |].
    unfold len in Hs. rewrite length_take, length_drop. lia.
  - apply process_wallet_short.
Qed.

Lemma process_wallet_rule_witness :
  (process_wallet (py "0xABCDEF1234") =
     py "0xabcd" ++ [ellipsis] ++ py "1234") /\
  (process_wallet (py "0xABCDEF") = py "0xabcdef").
Proof.
  split.
  - destruct (process_wallet_rule (py "0xABCDEF1234")) as [Hlong _].
    destruct Hlong as [Heq _]; [vm_compute; discriminate |].
    rewrite Heq. reflexivity.
  - destruct (process_wallet_rule (py "0xABCDEF")) as [_ Hshort].
    rewrite Hshort; [reflexivity | vm_compute; reflexivity].
Defined.

(** C7, as stated, fails: nine capital dotted I make a short input whose
    lowercase form has eighteen characters, and normalizing that form again
    truncates it. *)
Lemma process_wallet_idem_counterexample :
  process_wallet (replicate 9 dotted_I) =
    [small_i; combining_dot; small_i; combining_dot; small_i; combining_dot;
     small_i; combining_dot; small_i; combining_dot; small_i; combining_dot;
     small_i; combining_dot; small_i; combining_dot; small_i; combining_dot] /\
  process_wallet (process_wallet (replicate 9 dotted_I)) =
    [small_i; combining_dot; small_i; combining_dot; small_i; combining_dot;
     ellipsis; small_i; combining_dot; small_i; combining_dot] /\
  process_wallet (process_wallet (replicate 9 dotted_I)) <>
    process_wallet (replicate 9 dotted_I).
Proof. repeat split. vm_compute. discriminate. Qed.

Lemma process_wallet_fixed (s : str) :
  Forall (fun d => lower_cp d = [d]) (process_wallet s).
Proof.
  unfold process_wallet. destruct (10 <=? len s).
  - apply Forall_app. split; [apply lower_fixed |].
    constructor; [reflexivity | apply lower_fixed].
  - apply lower_fixed.
Qed.

Lemma process_wallet_not_capital (s : str) :
  Forall (fun d => ~ capital d) (process_wallet s).
Proof.
  unfold process_wallet. destruct (10 <=? len s).
  - apply Forall_app. split; [apply lower_not_capital |].
    constructor; [| apply lower_not_capital].
    unfold capital, ellipsis, dotted_I. lia.
  - apply lower_not_capital.
Qed.

Lemma process_wallet_tabled (s : str) :
  Forall tabled s -> Forall tabled (process_wallet s).
Proof.
  intros Hs. unfold process_wallet, slice_to, slice_from.
  destruct (10 <=? len s).
  - apply Forall_app. split; [apply lower_tabled, Forall_take; exact Hs |].
    constructor; [right; left; reflexivity |].
    apply lower_tabled, Forall_drop. exact Hs.
  - apply lower_tabled. exact Hs.
Qed.

Lemma process_wallet_no_dotted_I (s : str) : dotted_I ∉ process_wallet s.
Proof.
  intros Hin.
  pose proof (process_wallet_not_capital s) as H.
  rewrite Forall_forall in H. apply list_elem_of_In in Hin.
  apply (H dotted_I Hin). right. right. reflexivity.
Qed.

Lemma process_wallet_settled (s : str) :
  10 <= len s ->
  dotted_I ∉ take 6 s -> dotted_I ∉ drop (length s - 4) s ->
  settled (process_wallet s).
Proof.
  intros Hs Hf Hb. right.
  split; [apply process_wallet_length; assumption |].
  rewrite process_wallet_long by exact Hs.
  apply list_lookup_middle.
  rewrite lower_length by exact Hf. rewrite length_take.
  unfold len in Hs. lia.
Qed.

Lemma settled_idem (n : str) :
  Forall (fun d => lower_cp d = [d]) n -> settled n -> process_wallet n = n.
Proof.
  intros Hn [Hshort | [Hlen H6]].
  - rewrite process_wallet_short by exact Hshort. apply fixed_lower. exact Hn.
  - rewrite process_wallet_long by lia.
    rewrite (fixed_lower (take 6 n)) by (apply Forall_take; exact Hn).
    rewrite (fixed_lower (drop _ n)) by (apply Forall_drop; exact Hn).
    replace (length n - 4)%nat with 7%nat by (unfold len in Hlen; lia).
    apply take_drop_middle. exact H6.
Qed.

Lemma idem_settled (n : str) :
  dotted_I ∉ n -> process_wallet n = n -> settled n.
Proof.
  intros Hn Hidem.
  destruct (Z.le_gt_cases 10 (len n)) as [Hlong | Hshort]; [| left; lia].
  rewrite <- Hidem. apply process_wallet_settled; [exact Hlong | |].
  - apply not_elem_of_take. exact Hn.
  - apply not_elem_of_drop. exact Hn.
Qed.

(** C7, amended. Normalizing a second time leaves the key as it is exactly
    when the key has fewer than ten characters, or has eleven characters with
    the ellipsis as the seventh: for every string, a key that the second
    normalization leaves unchanged is of that kind, and for every string of
    characters of the lowercase table (Basic Latin, Latin-1, the ellipsis,
    U+0130, U+0307) a key of that kind is left unchanged.  So, for such
    strings, [process_wallet (process_wallet s) = process_wallet s] holds
    when [s] has at least ten characters and U+0130 is not among its six
    leading and four trailing characters (it may stand between them), and
    when [s] has fewer than ten characters and its lowercase form has fewer
    than ten as well. *)
Theorem process_wallet_idempotent :
  (forall s : str,
     process_wallet (process_wallet s) = process_wallet s ->
     settled (process_wallet s)) /\
  (forall s : str,
     Forall tabled s -> settled (process_wallet s) ->
     process_wallet (process_wallet s) = process_wallet s) /\
  (forall s : str,
     Forall tabled s -> 10 <= len s ->
     dotted_I ∉ take 6 s -> dotted_I ∉ drop (length s - 4) s ->
     process_wallet (process_wallet s) = process_wallet s) /\
  (forall s : str,
     Forall tabled s -> len s < 10 -> len (lower s) < 10 ->
     process_wallet (process_wallet s) = process_wallet s).
Proof.
  split; [| split; [| split]].
  - intros s Hidem. apply idem_settled; [| exact Hidem].
    apply process_wallet_no_dotted_I.
  - intros s _ Hset. apply settled_idem; [| exact Hset].
    apply process_wallet_fixed.
  - intros s _ Hs Hf Hb. apply settled_idem; [apply process_wallet_fixed |].
    apply process_wallet_settled; assumption.
  - intros s _ Hs Hl. apply settled_idem; [apply process_wallet_fixed |].
    left. rewrite process_wallet_short by exact Hs. exact Hl.
Qed.

Lemma process_wallet_idempotent_witness :
  let middle := py "0xABCD" ++ dotted_I :: py "EF1234" in
  let short := dotted_I :: py "0xAB" in
  settled (process_wallet middle) /\
  process_wallet (process_wallet middle) = process_wallet middle /\
  process_wallet (process_wallet short) = process_wallet short /\
  process_wallet (process_wallet (process_wallet short)) =
    process_wallet (process_wallet short).
Proof.
  intros middle short.
  destruct process_wallet_idempotent as (Honly & Hif & Hlong & Hshort).
  assert (process_wallet (process_wallet middle) = process_wallet middle)
    as Hmiddle.
  { apply (Hlong middle).
    - apply (bool_decide_unpack _). vm_compute. exact I.
    - unfold len. simpl. lia.
    - apply (bool_decide_unpack _). vm_compute. exact I.
    - apply (bool_decide_unpack _). vm_compute. exact I. }
  assert (process_wallet (process_wallet short) = process_wallet short)
    as Hsh.
  { apply (Hshort short).
    - apply (bool_decide_unpack _). vm_compute. exact I.
    - unfold len. simpl. lia.
    - unfold len. simpl. lia. }
  split; [exact (Honly middle Hmiddle) |].
  split; [exact Hmiddle |]. split; [exact Hsh |].
  apply (Hif (process_wallet short)).
  - apply (bool_decide_unpack _). vm_compute. exact I.
  - apply (Honly (process_wallet short)). rewrite Hsh. exact Hsh.
Defined.

(** C10, as stated, fails: ten capital dotted I give an output of twenty-one
    characters. *)
Lemma process_wallet_length_counterexample :
  len (replicate 10 dotted_I) = 10 /\
  len (process_wallet (replicate 10 dotted_I)) = 21.
Proof. split; reflexivity. Qed.

(** C10, amended. [process_wallet] is defined on every string, with
    [process_wallet "" = ""]; for every input of length at least 10 the
    output has at least 11 characters, and exactly 11 when U+0130 is not
    among the six leading and the four trailing characters; so the output of
    a long input is itself handled by the branch for long inputs. *)
Theorem process_wallet_total_length :
  process_wallet [] = [] /\
  forall s : str,
    10 <= len s ->
    11 <= len (process_wallet s) /\
    (10 <=? len (process_wallet s)) = true /\
    (dotted_I ∉ take 6 s -> dotted_I ∉ drop (length s - 4) s ->
     len (process_wallet s) = 11).
Proof.
  split; [reflexivity |]. intros s Hs.
  pose proof (process_wallet_length_ge s Hs) as Hge.
  split; [exact Hge |]. split; [apply Z.leb_le; lia |].
  apply process_wallet_length. exact Hs.
Qed.

Lemma process_wallet_total_length_witness :
  len (process_wallet (py "0xABCDEF1234")) = 11.
Proof.
  destruct process_wallet_total_length as [_ Hlen].
  destruct (Hlen (py "0xABCDEF1234")) as (_ & _ & Heq).
  - vm_compute. discriminate.
  - apply Heq; apply (bool_decide_unpack _); vm_compute; exact I.
Defined.




(** ** The search *)

(** The first selected row is the first row of the table whose key is the
    searched one. *)
Lemma select_first (w : str) (f : nat -> Z) (df : frame) :
  match filter (fun ir : Z * row => Wallet_lower ir.2 = w)
               (imap (fun i r => (f i, r)) df) with
  | [] => forall r, r ∈ df -> Wallet_lower r <> w
  | (z, r) :: _ =>
      exists i : nat,
        z = f i /\ df !! i = Some r /\ Wallet_lower r = w /\
        forall (j : nat) (r' : row),
          (j < i)%nat -> df !! j = Some r' -> Wallet_lower r' <> w
  end.
Proof.
  revert f. induction df as [| r0 df IH]; intros f.
  - simpl. intros r Hr. inversion Hr.
  - simpl. rewrite filter_cons. simpl.
    destruct (decide (Wallet_lower r0 = w)) as [Heq | Hne].
    + exists 0%nat. repeat split; [exact Heq |]. intros j r' Hj. lia.
    + specialize (IH (f ∘ S)).
      change (imap ((fun i r => (f i, r)) ∘ S) df)
        with (imap (fun i r => ((f ∘ S) i, r)) df).
      destruct (filter _ (imap (fun i r => ((f ∘ S) i, r)) df))
        as [| [z r] rest].
      * intros r Hr. apply elem_of_cons in Hr as [-> | Hr]; auto.
      * destruct IH as (i & -> & Hi & Hw & Hfirst).
        exists (S i). repeat split; [exact Hi | exact Hw |].
        intros [| j] r' Hj Hr'.
        -- simpl in Hr'. injection Hr' as <-. exact Hne.
        -- simpl in Hr'. apply (Hfirst j r'); [lia | exact Hr'].
Qed.

Lemma search_cases (df : frame) (search_button : bool) (wallet_input : str) :
  search df search_button wallet_input = no_result \/
  exists (i : nat) (r : row),
    search df search_button wallet_input = found i r /\
    df !! i = Some r /\
    Wallet_lower r = process_wallet wallet_input.
Proof.
  unfold search. destruct (search_button && truthy wallet_input); [| auto].
  unfold select_wallet.
  pose proof (select_first (process_wallet wallet_input) Z.of_nat df) as H.
  destruct (filter _ _) as [| [z r] rest]; [auto |].
  destruct H as (i & -> & Hi & Hw & _). right. exists i, r. auto.
Qed.

(** C3. The search normalizes the input with [process_wallet] and compares
    it with the stored keys: when some record's key equals the normalized
    input, the result is the first such record with its zero-based position;
    when no key equals it, nothing is found; and nothing is found for the
    empty input, whatever the table. *)
Theorem search_first_match (df : frame) (wallet_input : str) :
  (wallet_input <> [] ->
   (exists r, r ∈ df /\ Wallet_lower r = process_wallet wallet_input) ->
   exists (i : nat) (r : row),
     df !! i = Some r /\
     Wallet_lower r = process_wallet wallet_input /\
     (forall (j : nat) (r' : row),
        (j < i)%nat -> df !! j = Some r' ->
        Wallet_lower r' <> process_wallet wallet_input) /\
     search df true wallet_input = found i r) /\
  ((forall r, r ∈ df -> Wallet_lower r <> process_wallet wallet_input) ->
   search df true wallet_input = no_result) /\
  search df true [] = no_result.
Proof.
  pose proof (select_first (process_wallet wallet_input) Z.of_nat df) as H.
  split; [| split]; [| | reflexivity].
  - intros Hne (r0 & Hr0 & Hk0). unfold search, select_wallet.
    destruct wallet_input as [| c s]; [congruence |]. simpl truthy. simpl andb.
    cbv iota. destruct (filter _ _) as [| [z r] rest].
    + exfalso. exact (H r0 Hr0 Hk0).
    + destruct H as (i & -> & Hi & Hw & Hfirst). exists i, r. auto.
  - intros Hnone. unfold search, select_wallet.
    destruct (true && truthy wallet_input); [| reflexivity].
    destruct (filter _ _) as [| [z r] rest]; [reflexivity |].
    destruct H as (i & _ & Hi & Hw & _). exfalso.
    apply (Hnone r); [| exact Hw]. apply list_elem_of_lookup. eauto.
Qed.

Lemma search_first_match_witness :
  search short_df true (py "0x9988776655") =
    {| search_index := Some 1;
       name := Some (py "bob");
       reward := Some 50%Q;
       wshards := Some 0%Q |} /\
  search short_df true (py "0xabcdef0000") = no_result.
Proof.
  split.
  - destruct (search_first_match short_df (py "0x9988776655")) as [Hfound _].
    destruct Hfound as (i & r & Hi & Hw & Hfirst & ->).
    + discriminate.
    + exists (Row (py "bob") (py "0x9988" ++ ellipsis :: py "6655") 50 0
                  (py "0x9988" ++ ellipsis :: py "6655")).
      split; [| reflexivity]. apply list_elem_of_further, list_elem_of_here.
    + destruct i as [| [| i]]; simpl in Hi.
      * injection Hi as <-. vm_compute in Hw. discriminate.
      * injection Hi as <-. reflexivity.
      * discriminate.
  - destruct (search_first_match short_df (py "0xabcdef0000")) as (_ & Hnone & _).
    apply Hnone. intros r Hr.
    apply elem_of_cons in Hr as [-> | Hr]; [vm_compute; discriminate |].
    apply elem_of_cons in Hr as [-> | Hr]; [vm_compute; discriminate |].
    inversion Hr.
Defined.

(** ** The figure *)

Lemma setitem_in_range {A} (l : list A) (p : Z) (v : A) :
  0 <= p < len l -> setitem l p v = Some (<[Z.to_nat p := v]> l).
Proof.
  intros Hp. unfold setitem.
  destruct (Z.ltb_spec p (- len l)) as [Hlt | _]; [lia |].
  destruct (Z.leb_spec (len l) p) as [Hge | _]; [lia |].
  destruct (Z.ltb_spec p 0) as [Hneg | _]; [lia |]. reflexivity.
Qed.

Lemma len_replicate {A} (n : nat) (v : A) : len (replicate n v) = Z.of_nat n.
Proof. unfold len. rewrite length_replicate. reflexivity. Qed.

Lemma build_no_highlight (df : frame) :
  build df None =
    Some {| fig_data :=
              [ drop_trace df (plain_drop_markers (length df));
                wshards_trace df (plain_wshard_markers (length df)) ];
            fig_layout := update_layout df |}.
Proof. reflexivity. Qed.

Lemma build_in_range (df : frame) (p : Z) :
  0 <= p < len df ->
  build df (Some p) =
    Some {| fig_data :=
              [ drop_trace df (lit_drop_markers (length df) (Z.to_nat p));
                wshards_trace df (lit_wshard_markers (length df) (Z.to_nat p)) ];
            fig_layout := update_layout df |}.
Proof.
  intros Hp. unfold build, drop_markers, wshard_markers.
  rewrite !setitem_in_range by (rewrite len_replicate; exact Hp).
  reflexivity.
Qed.

Lemma search_index_in_range (df : frame) (b : bool) (w : str) (p : Z) :
  search_index (search df b w) = Some p -> 0 <= p < len df.
Proof.
  destruct (search_cases df b w) as [-> | (i & r & -> & Hi & _)].
  - discriminate.
  - simpl. intros [= <-]. apply lookup_lt_Some in Hi. unfold len. lia.
Qed.


Lemma lit_points_at (df : frame) (n k : nat) :
  (k < n)%nat ->
  point_marker (drop_trace df (lit_drop_markers n k)) k = Some (12, 2, green) /\
  point_marker (wshards_trace df (lit_wshard_markers n k)) k =
    Some (8, 2, green) /\
  point_fill (wshards_trace df (lit_wshard_markers n k)) k = Some opaque_red.
Proof.
  intros Hk. unfold point_marker, point_fill. simpl.
  rewrite !list_lookup_insert_eq by (rewrite length_replicate; exact Hk). auto.
Qed.


Lemma length_df_index (df : frame) : length (df_index df) = length df.
Proof. unfold df_index. apply length_imap. Qed.

Lemma lookup_df_index (df : frame) (i : nat) (r : row) :
  df !! i = Some r -> df_index df !! i = Some (Z.of_nat i).
Proof. intros Hi. unfold df_index. rewrite list_lookup_imap, Hi. reflexivity. Qed.



Lemma build_inv (df : frame) (highlight : option Z) (fig : figure) :
  build df highlight = Some fig ->
  exists m w,
    fig = {| fig_data := [drop_trace df m; wshards_trace df w];
             fig_layout := update_layout df |}.
Proof.
  unfold build. intros H.
  destruct (drop_markers df highlight) as [m |]; [| discriminate].
  destruct (wshard_markers df highlight) as [w |]; [| discriminate].
  simpl in H. injection H as <-. eauto.
Qed.

(** C8. For every table the figure is built, and in every figure built from
    it the first series has one point per record, at x = position and
    y = the record's [Odyssey Drop], on the first vertical axis; the second
    series has one point per record, at x = position + 25 and y = the
    record's [wShards], on the axis [y2], which overlays the first one over
    the same horizontal axis. *)
Theorem build_series (df : frame) :
  is_Some (build df None) /\
  forall (highlight : option Z) (fig : figure),
    build df highlight = Some fig ->
    exists a b,
      fig_data fig = [a; b] /\
      (length (trace_x a) = length df /\ length (trace_y a) = length df /\
       length (trace_x b) = length df /\ length (trace_y b) = length df) /\
      (trace_yaxis a = None /\ trace_yaxis b = Some "y2"%string /\
       axis_overlaying (layout_yaxis2 (fig_layout fig)) = Some "y"%string) /\
      forall (i : nat) (r : row),
        df !! i = Some r ->
        trace_x a !! i = Some (Z.of_nat i) /\
        trace_y a !! i = Some (Odyssey_Drop r) /\
        trace_x b !! i = Some (Z.of_nat i + 25) /\
        trace_y b !! i = Some (wShards r).
Proof.
  split; [rewrite build_no_highlight; eauto |].
  intros highlight fig Hfig.
  destruct (build_inv df highlight fig Hfig) as ([[s1 w1] c1] & [[[s2 f2] w2] c2] & ->).
  eexists _, _. split; [reflexivity |]. simpl.
  split; [rewrite !length_map, length_df_index; auto |].
  split; [auto |].
  intros i r Hi.
  rewrite !list_lookup_fmap, (lookup_df_index df i r Hi), Hi. auto.
Qed.

Lemma build_series_witness :
  exists a b,
    fig_data <$> build short_df (Some 0) = Some [a; b] /\
    trace_x a = [0; 1] /\ trace_y a = [100%Q; 50%Q] /\
    trace_x b = [25; 26] /\ trace_y b = [5%Q; 0%Q].
Proof.
  destruct (build_series short_df) as [[fig Hfig] Hseries].
  destruct (build short_df (Some 0)) as [fig1 |] eqn:Hfig1; [| discriminate].
  destruct (Hseries (Some 0) fig1 Hfig1) as (a & b & Hdata & _ & _ & Hpoints).
  exists a, b. split; [simpl; rewrite Hdata; reflexivity |].
  vm_compute in Hfig1. injection Hfig1 as <-.
  simpl in Hdata. injection Hdata as <- <-. repeat split.
Defined.

(** ** The axis ranges *)

Lemma qmax_cases (a b : Q) :
  (qmax a b = a \/ qmax a b = b) /\ (a <= qmax a b)%Q /\ (b <= qmax a b)%Q.
Proof.
  unfold qmax. destruct (Qle_bool a b) eqn:Hab.
  - apply Qle_bool_iff in Hab. repeat split; auto. apply Qle_refl.
  - assert (~ (a <= b)%Q) as Hn
      by (intros H; apply Qle_bool_iff in H; congruence).
    apply Qnot_le_lt in Hn. repeat split; auto.
    + apply Qle_refl.
    + apply Qlt_le_weak. exact Hn.
Qed.

Lemma foldl_qmax (rest : list Q) (q : Q) :
  (foldl qmax q rest = q \/ foldl qmax q rest ∈ rest) /\
  (q <= foldl qmax q rest)%Q /\
  forall v, v ∈ rest -> (v <= foldl qmax q rest)%Q.
Proof.
  revert q. induction rest as [| x rest IH]; intros q; simpl.
  - repeat split; auto. + apply Qle_refl. + intros v Hv. inversion Hv.
  - destruct (IH (qmax q x)) as (Hin & Hle & Hall).
    destruct (qmax_cases q x) as (Hcase & Hq & Hx).
    repeat split.
    + destruct Hin as [-> | Hin].
      * destruct Hcase as [-> | ->]; [auto | right; apply list_elem_of_here].
      * right. apply list_elem_of_further. exact Hin.
    + eapply Qle_trans; eauto.
    + intros v Hv. apply elem_of_cons in Hv as [-> | Hv]; [| auto].
      eapply Qle_trans; eauto.
Qed.

Lemma series_max_spec (column : list Q) :
  match series_max column with
  | NaN => column = []
  | Finite m => m ∈ column /\ forall v, v ∈ column -> (v <= m)%Q
  end.
Proof.
  destruct column as [| q rest]; [reflexivity |]. simpl.
  destruct (foldl_qmax rest q) as (Hin & Hle & Hall). split.
  - destruct Hin as [-> | Hin];
      [apply list_elem_of_here | apply list_elem_of_further; exact Hin].
  - intros v Hv. apply elem_of_cons in Hv as [-> | Hv]; auto.
Qed.

Lemma log_range_spec (column : list Q) :
  (log_range column).1 = Log10 1 /\ upper_end column (log_range column).2.
Proof.
  split; [reflexivity |]. unfold log_range. simpl.
  pose proof (series_max_spec column) as Hmax.
  destruct (series_max column) as [m |]; simpl; [| left; exact Hmax].
  destruct Hmax as [Hin Hall].
  destruct (0 ?= m)%Q eqn:Hcmp; simpl.
  - apply Qeq_alt in Hcmp. split.
    + exists m. split; [exact Hin | symmetry; exact Hcmp].
    + intros v Hv. rewrite Hcmp. apply Hall. exact Hv.
  - apply Qlt_alt in Hcmp. auto.
  - apply Qgt_alt in Hcmp. right. intros v Hv.
    eapply Qle_lt_trans; [apply Hall; exact Hv | exact Hcmp].
Qed.

(** C5, as stated, fails: for a table whose amounts are all 0 the upper end
    of both ranges is [log10(0) = -inf], and for the empty table it is
    [nan]. *)
Lemma log_range_counterexample :
  axis_ranges <$> build zero_df None =
    Some (Some (Log10 1, MinusInf), Some (Log10 1, MinusInf)) /\
  axis_ranges <$> build [] None =
    Some (Some (Log10 1, LogNaN), Some (Log10 1, LogNaN)).
Proof. split; reflexivity. Qed.

(** C5, amended. In every figure that is built both vertical axes are
    logarithmic with the range [log10(1), log10(max of the series)], computed
    without a guard and without a safe range in its place: the upper end is
    the logarithm of the largest value of the series when that value is
    positive, [-inf] when the largest value is 0, and [nan] when the series
    is empty (or its largest value negative). *)
Theorem log_axis_ranges (df : frame) (highlight : option Z) (fig : figure) :
  build df highlight = Some fig ->
  axis_type (layout_yaxis (fig_layout fig)) = Some "log"%string /\
  axis_type (layout_yaxis2 (fig_layout fig)) = Some "log"%string /\
  exists hi1 hi2 : log_value,
    axis_range (layout_yaxis (fig_layout fig)) = Some (Log10 1, hi1) /\
    axis_range (layout_yaxis2 (fig_layout fig)) = Some (Log10 1, hi2) /\
    hi1 = np_log10 (series_max (map Odyssey_Drop df)) /\
    hi2 = np_log10 (series_max (map wShards df)) /\
    upper_end (map Odyssey_Drop df) hi1 /\
    upper_end (map wShards df) hi2.
Proof.
  intros Hfig.
  destruct (build_inv df highlight fig Hfig) as (m & w & ->). simpl.
  split; [reflexivity |]. split; [reflexivity |].
  eexists _, _. split; [reflexivity |]. split; [reflexivity |].
  split; [reflexivity |]. split; [reflexivity |].
  split; apply log_range_spec.
Qed.

Lemma log_axis_ranges_witness :
  axis_ranges <$> build short_df None =
    Some (Some (Log10 1, Log10 100), Some (Log10 1, Log10 5)).
Proof.
  destruct (build short_df None) as [fig |] eqn:Hfig; [| discriminate].
  destruct (log_axis_ranges short_df None fig Hfig)
    as (_ & _ & hi1 & hi2 & H1 & H2 & -> & -> & _).
  simpl. unfold axis_ranges. rewrite H1, H2. reflexivity.
Defined.

(** ** Runs of the script *)

Lemma main_cache (read_csv : option (list csv_row)) (c : cache)
    (search_button : bool) (wallet_input : str) :
  c = None \/ c = Some (load_data read_csv) ->
  (main read_csv c search_button wallet_input).1 =
    (main read_csv None search_button wallet_input).1 /\
  (main read_csv c search_button wallet_input).2 = Some (load_data read_csv).
Proof.
  intros [-> | ->]; unfold main, cached_load_data;
    destruct (load_data read_csv) as [df |]; simpl; auto;
    destruct (build df _); simpl; auto.
Qed.

Lemma main_builds (df : frame) (search_button : bool) (wallet_input : str) :
  is_Some (build df (search_index (search df search_button wallet_input))).
Proof.
  destruct (search_index (search df search_button wallet_input)) as [p |] eqn:Hp.
  - rewrite build_in_range; [eauto |].
    apply (search_index_in_range df search_button wallet_input p Hp).
  - rewrite build_no_highlight. eauto.
Qed.


(** ** Further properties of the wallet key *)

(** X1. For every input of characters of the lowercase table (Basic Latin,
    Latin-1, the ellipsis, U+0130, U+0307), the key that [process_wallet]
    returns is again made of such characters, none of them a capital letter
    (A-Z, U+00C0..U+00DE without the multiplication sign, U+0130), and
    lowercasing the key again leaves it unchanged. *)
Theorem process_wallet_lowercase (s : str) :
  Forall tabled s ->
  Forall tabled (process_wallet s) /\
  Forall (fun c => ~ capital c) (process_wallet s) /\
  lower (process_wallet s) = process_wallet s.
Proof.
  intros Hs. split; [apply process_wallet_tabled; exact Hs |].
  split; [apply process_wallet_not_capital |].
  apply fixed_lower, process_wallet_fixed.
Qed.

Lemma process_wallet_lowercase_witness :
  let s := py "0xABCDEF1234" in
  Forall (fun c => ~ capital c) (process_wallet s) /\
  lower (process_wallet s) = process_wallet s.
Proof.
  intros s. destruct (process_wallet_lowercase s) as (_ & Hcap & Hlow).
  - apply (bool_decide_unpack _). vm_compute. exact I.
  - split; [exact Hcap | exact Hlow].
Defined.

Lemma same_case_lower (s s' : str) : same_case s s' -> lower s = lower s'.
Proof.
  induction 1 as [| c c' s s' (_ & _ & Hc) _ IH]; [reflexivity |].
  rewrite !lower_cons, Hc, IH. reflexivity.
Qed.

Lemma same_case_process_wallet (s s' : str) :
  same_case s s' -> process_wallet s = process_wallet s'.
Proof.
  intros H. pose proof H as Hlen. apply Forall2_length in Hlen.
  unfold process_wallet, slice_to, slice_from, len. rewrite <- Hlen.
  destruct (10 <=? Z.of_nat (length s)).
  - f_equal; [| f_equal]; apply same_case_lower.
    + apply Forall2_take. exact H.
    + apply Forall2_drop. exact H.
  - apply same_case_lower. exact H.
Qed.

(** X2. On inputs of characters of the lowercase table (Basic Latin,
    Latin-1, the ellipsis, U+0130, U+0307) the search does not depend on the
    case: two such inputs of the same length whose characters have the same
    lowercase form position by position have the same key and give the same
    search result on every table. *)
Theorem search_case_insensitive (df : frame) (search_button : bool)
    (s s' : str) :
  same_case s s' ->
  process_wallet s = process_wallet s' /\
  search df search_button s = search df search_button s'.
Proof.
  intros H. pose proof (same_case_process_wallet s s' H) as Hpw.
  split; [exact Hpw |]. unfold search. rewrite Hpw.
  destruct H; reflexivity.
Qed.

Lemma search_case_insensitive_witness :
  search short_df true (py "0XABCDef991234") =
    search short_df true (py "0xabcdEF991234").
Proof.
  apply (search_case_insensitive short_df true
           (py "0XABCDef991234") (py "0xabcdEF991234")).
  apply (bool_decide_unpack _). vm_compute. exact I.
Defined.

Lemma process_wallet_ends (a m b : str) :
  length a = 6%nat -> length b = 4%nat ->
  process_wallet (a ++ m ++ b) = lower a ++ ellipsis :: lower b.
Proof.
  intros Ha Hb.
  rewrite process_wallet_long
    by (unfold len; rewrite !length_app; lia).
  rewrite take_app_length' by lia.
  replace (length (a ++ m ++ b) - 4)%nat with (length (a ++ m))
    by (rewrite !length_app; lia).
  rewrite (app_assoc a m b), drop_app_length. reflexivity.
Qed.

(** X3. For an input of at least ten characters only the six leading and
    the four trailing characters count: the key is their lowercase forms
    around the ellipsis, whatever stands between them, so two addresses with
    the same ends have the same key. *)
Theorem process_wallet_ignores_middle (a m m' b : str) :
  length a = 6%nat -> length b = 4%nat ->
  process_wallet (a ++ m ++ b) = lower a ++ ellipsis :: lower b /\
  process_wallet (a ++ m ++ b) = process_wallet (a ++ m' ++ b).
Proof.
  intros Ha Hb. rewrite !process_wallet_ends by assumption. auto.
Qed.

Lemma process_wallet_ignores_middle_witness :
  process_wallet (py "0xABCD" ++ py "EF0123456789" ++ py "1234") =
    process_wallet (py "0xABCD" ++ [] ++ py "1234").
Proof.
  apply (process_wallet_ignores_middle
           (py "0xABCD") (py "EF0123456789") [] (py "1234"));
    reflexivity.
Defined.

(** ** Further properties of the search *)

Lemma search_hit (df : frame) (w : str) (i : nat) (r : row) :
  w <> [] -> df !! i = Some r -> Wallet_lower r = process_wallet w ->
  exists (j : nat) (r' : row),
    (j <= i)%nat /\ df !! j = Some r' /\
    Wallet_lower r' = process_wallet w /\
    (forall (k : nat) (r'' : row),
       (k < j)%nat -> df !! k = Some r'' ->
       Wallet_lower r'' <> process_wallet w) /\
    search df true w = found j r'.
Proof.
  intros Hw Hi Hk. unfold search, select_wallet.
  pose proof (select_first (process_wallet w) Z.of_nat df) as H.
  destruct w as [| c w]; [congruence |]. simpl truthy. simpl andb. cbv iota.
  destruct (filter _ _) as [| [z r0] rest].
  - exfalso. apply (H r); [| exact Hk]. apply list_elem_of_lookup. eauto.
  - destruct H as (j & -> & Hj & Hkj & Hfirst). exists j, r0.
    split; [| auto].
    destruct (Nat.le_gt_cases j i) as [Hle | Hgt]; [exact Hle |].
    exfalso. exact (Hfirst i r Hgt Hi Hk).
Qed.

Lemma search_at_first (df : frame) (w : str) (i : nat) (r : row) :
  w <> [] -> df !! i = Some r -> Wallet_lower r = process_wallet w ->
  (forall (j : nat) (r' : row),
     (j < i)%nat -> df !! j = Some r' -> Wallet_lower r' <> process_wallet w) ->
  search df true w = found i r.
Proof.
  intros Hw Hi Hk Hfirst.
  destruct (search_hit df w i r Hw Hi Hk) as (j & r' & Hle & Hj & Hkj & _ & ->).
  destruct (Nat.eq_dec j i) as [-> | Hne].
  - rewrite Hi in Hj. injection Hj as <-. reflexivity.
  - exfalso. apply (Hfirst j r'); [lia | exact Hj | exact Hkj].
Qed.

Lemma search_found_inv (df : frame) (b : bool) (w : str) (p : Z) :
  search_index (search df b w) = Some p ->
  exists (i : nat) (r : row),
    p = Z.of_nat i /\ b = true /\ w <> [] /\
    search df b w = found i r /\ df !! i = Some r /\
    Wallet_lower r = process_wallet w /\
    forall (j : nat) (r' : row),
      (j < i)%nat -> df !! j = Some r' -> Wallet_lower r' <> process_wallet w.
Proof.
  unfold search, select_wallet.
  pose proof (select_first (process_wallet w) Z.of_nat df) as H.
  destruct b; [| discriminate]. destruct w as [| c w]; [discriminate |].
  simpl truthy. simpl andb. cbv iota.
  destruct (filter _ _) as [| [z r] rest]; [discriminate |].
  destruct H as (i & -> & Hi & Hk & Hfirst). simpl. intros [= <-].
  exists i, r. repeat split; auto; discriminate.
Qed.

Lemma load_data_lookup (csv : list csv_row) (df : frame) (i : nat)
    (c : csv_row) :
  load_data (Some csv) = Some df -> csv !! i = Some c ->
  df !! i = Some {| Name := csv_Name c;
                    Wallet := csv_Wallet c;
                    Odyssey_Drop := csv_Odyssey_Drop c;
                    wShards := csv_wShards c;
                    Wallet_lower := lower (csv_Wallet c) |}.
Proof.
  simpl. intros [= <-] Hc. rewrite list_lookup_fmap, Hc. reflexivity.
Qed.



(** X4. From the file to the hit: when row [i] of the CSV stores its wallet
    abbreviated as six characters, the ellipsis and four characters, all of
    the lowercase table and none U+0130 (so Basic Latin, Latin-1, the
    ellipsis or U+0307), the search for any full address whose six leading
    and four trailing characters agree with those up to case, with anything
    in between, finds a record with that key, at position [i] or before
    it. *)
Theorem search_abbreviated_table (csv : list csv_row) (df : frame) (i : nat)
    (c : csv_row) (a b a' m b' : str) :
  load_data (Some csv) = Some df ->
  csv !! i = Some c ->
  csv_Wallet c = a ++ ellipsis :: b ->
  length a = 6%nat -> length b = 4%nat ->
  dotted_I ∉ a -> dotted_I ∉ b ->
  same_case a' a -> same_case b' b ->
  exists (j : nat) (r : row),
    (j <= i)%nat /\ df !! j = Some r /\
    Wallet_lower r = lower a ++ ellipsis :: lower b /\
    search df true (a' ++ m ++ b') = found j r.
Proof.
  intros Hload Hc Hw Ha Hb _ _ Ha' Hb'.
  pose proof (load_data_lookup csv df i c Hload Hc) as Hi.
  pose proof Ha' as La. apply Forall2_length in La.
  pose proof Hb' as Lb. apply Forall2_length in Lb.
  assert (process_wallet (a' ++ m ++ b') = lower a ++ ellipsis :: lower b)
    as Hpw.
  { rewrite process_wallet_ends by lia.
    rewrite (same_case_lower a' a Ha'), (same_case_lower b' b Hb').
    reflexivity. }
  assert (a' ++ m ++ b' <> []) as Hne
    by (intros E; apply (f_equal length) in E;
        rewrite !length_app in E; simpl in E; lia).
  destruct (search_hit df (a' ++ m ++ b') i _ Hne Hi)
    as (j & r & Hle & Hj & Hk & _ & Hs).
  - simpl. rewrite Hw, Hpw, lower_app, lower_cons. reflexivity.
  - exists j, r. rewrite <- Hpw. auto.
Qed.

Lemma search_abbreviated_table_witness :
  exists (j : nat) (r : row),
    (j <= 1)%nat /\ short_df !! j = Some r /\
    Wallet_lower r = lower (py "0x9988") ++ ellipsis :: lower (py "6655") /\
    search short_df true (py "0X9988" ++ py "7766554433" ++ py "6655") =
      found j r.
Proof.
  apply (search_abbreviated_table short_csv short_df 1
           (CsvRow (py "bob") (py "0x9988" ++ ellipsis :: py "6655") 50 0)
           (py "0x9988") (py "6655") (py "0X9988") (py "7766554433")
           (py "6655")); try reflexivity;
    apply (bool_decide_unpack _); vm_compute; exact I.
Defined.

(** X5. When no two records of the table share a key, a search finds
    exactly the record whose key is the normalized input: any record with
    that key is returned, with its own position. *)
Theorem search_unique_key (df : frame) (w : str) (i : nat) (r : row) :
  NoDup (map Wallet_lower df) ->
  w <> [] -> df !! i = Some r -> Wallet_lower r = process_wallet w ->
  search df true w = found i r.
Proof.
  intros Hnodup Hw Hi Hk.
  apply search_at_first; [exact Hw | exact Hi | exact Hk |].
  intros j r' Hj Hr' Hk'.
  assert (j = i) as E; [| lia].
  apply (NoDup_lookup _ j i (Wallet_lower r) Hnodup).
  - rewrite list_lookup_fmap, Hr'. simpl. congruence.
  - rewrite list_lookup_fmap, Hi. reflexivity.
Qed.

Lemma search_unique_key_witness :
  search short_df true (py "0x9988776655") =
    found 1 (Row (py "bob") (py "0x9988" ++ ellipsis :: py "6655") 50 0
                 (py "0x9988" ++ ellipsis :: py "6655")).
Proof.
  apply (search_unique_key short_df (py "0x9988776655") 1).
  - apply (bool_decide_unpack _). vm_compute. exact I.
  - discriminate.
  - reflexivity.
  - reflexivity.
Defined.

(** X6. The first match wins: a record whose key already occurs at an
    earlier position is never the result of a search, whatever the input. *)
Theorem search_shadowed_duplicate (df : frame) (j i : nat) (r' r : row) :
  (j < i)%nat -> df !! j = Some r' -> df !! i = Some r ->
  Wallet_lower r' = Wallet_lower r ->
  forall (search_button : bool) (wallet_input : str),
    search_index (search df search_button wallet_input) <> Some (Z.of_nat i).
Proof.
  intros Hlt Hj Hi Hk b w Hs.
  apply search_found_inv in Hs
    as (i0 & r0 & E & _ & _ & _ & Hi0 & Hk0 & Hfirst).
  apply Nat2Z.inj in E. subst i0.
  rewrite Hi in Hi0. injection Hi0 as <-.
  apply (Hfirst j r' Hlt Hj). congruence.
Qed.

Lemma search_shadowed_duplicate_witness :
  search_index (search twin_df true (py "0xABCDEF1234")) <> Some 1.
Proof.
  apply (search_shadowed_duplicate twin_df 0 1
           (Row (py "alice") (py "0xABCD" ++ ellipsis :: py "1234") 100 5
                (py "0xabcd" ++ ellipsis :: py "1234"))
           (Row (py "alias") (py "0xabcd" ++ ellipsis :: py "1234") 7 1
                (py "0xabcd" ++ ellipsis :: py "1234")));
    [lia | reflexivity | reflexivity | reflexivity].
Defined.

Lemma lower_elem_of (s : str) (c d : N) :
  c ∈ s -> d ∈ lower_cp c -> d ∈ lower s.
Proof.
  intros Hc Hd. induction Hc as [c s | c c0 s _ IH].
  - rewrite lower_cons. apply elem_of_app. left. exact Hd.
  - rewrite lower_cons. apply elem_of_app. right. exact (IH Hd).
Qed.

Lemma process_wallet_long_key (w : str) :
  10 <= len (process_wallet w) ->
  ellipsis ∈ process_wallet w \/ combining_dot ∈ process_wallet w.
Proof.
  intros Hlen. destruct (Z.le_gt_cases 10 (len w)) as [Hlong | Hshort].
  - left. rewrite process_wallet_long by exact Hlong.
    apply elem_of_app. right. apply list_elem_of_here.
  - right. rewrite process_wallet_short in * by lia.
    destruct (decide (dotted_I ∈ w)) as [Hin | Hnot].
    + apply (lower_elem_of w dotted_I); [exact Hin |].
      apply list_elem_of_further, list_elem_of_here.
    + apply lower_length in Hnot. unfold len in *. lia.
Qed.

(** X7. A record stored with a key of ten or more characters that contains
    neither the ellipsis nor a combining dot - a full address kept in the
    table as it is - is out of reach: no input makes the search return it. *)
Theorem search_unreachable_full_address (df : frame) (i : nat) (r : row) :
  df !! i = Some r ->
  10 <= len (Wallet_lower r) ->
  ellipsis ∉ Wallet_lower r -> combining_dot ∉ Wallet_lower r ->
  forall (search_button : bool) (wallet_input : str),
    search_index (search df search_button wallet_input) <> Some (Z.of_nat i).
Proof.
  intros Hi Hlen He Hd b w Hs.
  apply search_found_inv in Hs as (i0 & r0 & E & _ & _ & _ & Hi0 & Hk & _).
  apply Nat2Z.inj in E. subst i0.
  rewrite Hi in Hi0. injection Hi0 as <-. rewrite Hk in *.
  destruct (process_wallet_long_key w Hlen); contradiction.
Qed.

Lemma search_unreachable_full_address_witness :
  search_index (search demo_df true (py "0xABCDEF1234")) <> Some 0.
Proof.
  apply (search_unreachable_full_address demo_df 0
           (Row (py "alice") (py "0xABCDEF1234") 100 5 (py "0xabcdef1234"))).
  - reflexivity.
  - vm_compute. discriminate.
  - apply (bool_decide_unpack _). vm_compute. exact I.
  - apply (bool_decide_unpack _). vm_compute. exact I.
Defined.

Lemma lookup_app_first {A} (l k : list A) (i : nat) (x : A) :
  l !! i = Some x -> (l ++ k) !! i = Some x.
Proof.
  intros H. rewrite lookup_app_l; [exact H |].
  apply lookup_lt_Some in H. exact H.
Qed.

(** X8. A hit is stable under growth of the table: when a search finds a
    record, the same search on the table with further rows appended finds the
    same record at the same position. *)
Theorem search_append_stable (df extra : frame) (search_button : bool)
    (wallet_input : str) (p : Z) :
  search_index (search df search_button wallet_input) = Some p ->
  search (df ++ extra) search_button wallet_input =
    search df search_button wallet_input.
Proof.
  intros Hs.
  apply search_found_inv in Hs
    as (i & r & _ & -> & Hw & -> & Hi & Hk & Hfirst).
  apply search_at_first; [exact Hw | | exact Hk |].
  - apply lookup_app_first. exact Hi.
  - intros j r' Hj Hr'. apply (Hfirst j r' Hj).
    rewrite lookup_app_l in Hr'; [exact Hr' |].
    apply lookup_lt_Some in Hi. lia.
Qed.

Lemma search_append_stable_witness :
  search (short_df ++ demo_df) true (py "0x9988776655") =
    search short_df true (py "0x9988776655").
Proof.
  apply (search_append_stable short_df demo_df true (py "0x9988776655") 1).
  reflexivity.
Defined.

(** ** Further properties of [main] *)

(** X9. [main] never ends in an exception of the figure block: the position
    it passes to the list assignments is absent or valid, whatever the cache
    holds and whatever the input. *)
Theorem main_never_raises (read_csv : option (list csv_row)) (c : cache)
    (search_button : bool) (wallet_input : str) :
  (main read_csv c search_button wallet_input).1 <> Raised.
Proof.
  unfold main, cached_load_data.
  destruct c as [[df |] |]; simpl; try discriminate.
  - destruct (main_builds df search_button wallet_input) as [fig ->].
    discriminate.
  - destruct (load_data read_csv) as [df |]; [| discriminate].
    destruct (main_builds df search_button wallet_input) as [fig ->].
    discriminate.
Qed.

Lemma search_outcome (df : frame) (b : bool) (w : str) :
  ((b = false \/ w = []) /\ search df b w = no_result) \/
  (b = true /\ w <> [] /\ search df b w = no_result /\
   forall r, r ∈ df -> Wallet_lower r <> process_wallet w) \/
  (b = true /\ w <> [] /\
   exists (i : nat) (r : row),
     search df b w = found i r /\ df !! i = Some r /\
     Wallet_lower r = process_wallet w).
Proof.
  destruct b; [| left; auto]. destruct w as [| c w]; [left; auto |].
  right. unfold search, select_wallet.
  pose proof (select_first (process_wallet (c :: w)) Z.of_nat df) as H.
  simpl truthy. simpl andb. cbv iota.
  destruct (filter _ _) as [| [z r] rest].
  - left. repeat split; auto; discriminate.
  - right. destruct H as (i & -> & Hi & Hk & _).
    repeat split; [discriminate |]. exists i, r. auto.
Qed.

(** X10. The page is consistent. With a loaded table a run shows a figure
    and one of three sections: nothing, when the button was not pressed or
    the input is empty, and then no point is highlighted; the warning, when
    the search was made and no stored key equals the normalized input, and
    then no point is highlighted; or the estimate, and then the name and the
    two amounts shown are those of a record whose key is the normalized
    input, and the highlighted point of both series is that record's. *)
Theorem main_page_consistent (csv : list csv_row) (search_button : bool)
    (wallet_input : str) :
  exists (df : frame) (fig : figure) (section : rewards_section),
    load_data (Some csv) = Some df /\
    (main (Some csv) None search_button wallet_input).1 = Page fig section /\
    match section with
    | NoSearch =>
        (search_button = false \/ wallet_input = []) /\
        build df None = Some fig
    | NoMatch =>
        search_button = true /\ wallet_input <> [] /\
        (forall r, r ∈ df -> Wallet_lower r <> process_wallet wallet_input) /\
        build df None = Some fig
    | Estimate n ws rw =>
        search_button = true /\ wallet_input <> [] /\
        exists (i : nat) (r : row),
          df !! i = Some r /\
          Wallet_lower r = process_wallet wallet_input /\
          n = Name r /\ ws = Some (wShards r) /\ rw = Some (Odyssey_Drop r) /\
          build df (Some (Z.of_nat i)) = Some fig /\
          exists a b,
            fig_data fig = [a; b] /\
            point_marker a i = Some (12, 2, green) /\
            point_marker b i = Some (8, 2, green)
    end.
Proof.
  destruct (load_data (Some csv)) as [df |] eqn:Hload; [| discriminate].
  exists df. unfold main, cached_load_data. rewrite Hload.
  destruct (search_outcome df search_button wallet_input)
    as [[Hoff Hs] | [(-> & Hw & Hs & Hnone) | (-> & Hw & i & r & Hs & Hi & Hk)]];
    rewrite Hs.
  - eexists _, _. split; [reflexivity |]. split; [reflexivity |].
    unfold estimated_rewards.
    replace (search_button && truthy wallet_input) with false
      by (destruct Hoff as [-> | ->]; [| destruct search_button]; reflexivity).
    auto.
  - eexists _, _. split; [reflexivity |]. split; [reflexivity |].
    unfold estimated_rewards.
    destruct wallet_input; [congruence |]. simpl. repeat split; auto.
  - pose proof (lookup_lt_Some _ _ _ Hi) as Hlt.
    simpl search_index. rewrite build_in_range by (unfold len; lia).
    eexists _, _. split; [reflexivity |]. split; [reflexivity |].
    unfold estimated_rewards.
    destruct wallet_input; [congruence |]. simpl.
    split; [reflexivity |]. split; [exact Hw |].
    exists i, r.
    split; [exact Hi |]. split; [exact Hk |].
    split; [reflexivity |]. split; [reflexivity |]. split; [reflexivity |].
    split; [rewrite build_in_range by (unfold len; lia); reflexivity |].
    rewrite Nat2Z.id. eexists _, _. split; [reflexivity |].
    destruct (lit_points_at df (length df) i Hlt) as (Ha & Hb & _). auto.
Qed.

(** X11. The table is read once. After a first run, a later run shows what
    the table loaded by the first run gives, even when reading the file would
    now give another table or fail; a failed first load keeps every later run
    at the error message. *)
Theorem main_uses_first_load (read_csv1 read_csv2 : option (list csv_row))
    (button1 : bool) (input1 : str) (search_button : bool)
    (wallet_input : str) :
  (main read_csv2 (main read_csv1 None button1 input1).2
        search_button wallet_input).1 =
    (main read_csv1 None search_button wallet_input).1.
Proof.
  destruct (main_cache read_csv1 None button1 input1) as [_ ->]; [auto |].
  unfold main, cached_load_data.
  destruct (load_data read_csv1) as [df |]; [| reflexivity].
  destruct (build df _); reflexivity.
Qed.

(** ** Further properties of the figure *)

Lemma elem_of_df_index (df : frame) (x : Z) :
  x ∈ df_index df <-> 0 <= x < len df.
Proof.
  unfold df_index, len. rewrite elem_of_lookup_imap. split.
  - intros (i & r & -> & Hi). apply lookup_lt_Some in Hi. lia.
  - intros Hx. destruct (lookup_lt_is_Some_2 df (Z.to_nat x)) as [r Hr]; [lia |].
    exists (Z.to_nat x), r. split; [lia | exact Hr].
Qed.

(** X12. The x values of the first series are the positions
    [0 .. len(records)-1] and those of the second series are
    [25 .. len(records)+24]; so the two series share an x value exactly when
    the table has more than 25 records. *)
Theorem series_x_overlap (df : frame) (highlight : option Z) (fig : figure)
    (a b : scatter) :
  build df highlight = Some fig -> fig_data fig = [a; b] ->
  (forall x : Z, x ∈ trace_x a <-> 0 <= x < len df) /\
  (forall x : Z, x ∈ trace_x b <-> 25 <= x < len df + 25) /\
  ((exists x : Z, x ∈ trace_x a /\ x ∈ trace_x b) <-> 25 < len df).
Proof.
  intros Hfig Hdata.
  destruct (build_inv df highlight fig Hfig)
    as ([[s1 w1] c1] & [[[s2 f2] w2] c2] & ->).
  simpl in Hdata. injection Hdata as <- <-. simpl.
  assert (forall x : Z,
            x ∈ map (fun i => i + 25) (df_index df) <->
            25 <= x < len df + 25) as Hb.
  { intros x. rewrite list_elem_of_fmap. split.
    - intros (y & -> & Hy). apply elem_of_df_index in Hy. lia.
    - intros Hx. exists (x - 25). split; [lia |].
      apply elem_of_df_index. lia. }
  split; [apply elem_of_df_index |]. split; [exact Hb |]. split.
  - intros (x & Hxa & Hxb). apply elem_of_df_index in Hxa.
    apply Hb in Hxb. lia.
  - intros Hlen. exists 25. split; [apply elem_of_df_index | apply Hb]; lia.
Qed.

Lemma series_x_overlap_witness :
  ~ exists x : Z, x ∈ [0; 1] /\ x ∈ [25; 26].
Proof.
  destruct (build short_df None) as [fig |] eqn:Hfig; [| discriminate].
  destruct (fig_data fig) as [| a [| b [| ? ?]]] eqn:Hdata;
    try (vm_compute in Hfig; injection Hfig as <-; discriminate).
  destruct (series_x_overlap short_df None fig a b Hfig Hdata)
    as (_ & _ & Hoverlap).
  vm_compute in Hfig. injection Hfig as <-.
  simpl in Hdata. injection Hdata as <- <-. simpl in Hoverlap.
  intros H. apply Hoverlap in H. vm_compute in H. discriminate.
Defined.

Lemma setitem_length {A} (l l' : list A) (i : Z) (v : A) :
  setitem l i v = Some l' -> length l' = length l.
Proof.
  unfold setitem. destruct ((i <? - len l) || (len l <=? i)); [discriminate |].
  intros [= <-]. apply length_insert.
Qed.

Lemma drop_markers_length (df : frame) (highlight : option Z)
    (s w : list Z) (c : list string) :
  drop_markers df highlight = Some (s, w, c) ->
  length s = length df /\ length w = length df /\ length c = length df.
Proof.
  unfold drop_markers. destruct highlight as [i |].
  - destruct (setitem (replicate (length df) 6) i 12) as [s' |] eqn:Hs;
      [| discriminate].
    destruct (setitem (replicate (length df) 0) i 2) as [w' |] eqn:Hw;
      [| discriminate].
    destruct (setitem (replicate (length df) white) i green) as [c' |] eqn:Hc;
      [| discriminate].
    simpl. intros [= <- <- <-].
    apply setitem_length in Hs. apply setitem_length in Hw.
    apply setitem_length in Hc.
    rewrite length_replicate in Hs. rewrite length_replicate in Hw.
    rewrite length_replicate in Hc. auto.
  - intros [= <- <- <-]. rewrite !length_replicate. auto.
Qed.

Lemma wshard_markers_length (df : frame) (highlight : option Z)
    (s w : list Z) (f c : list string) :
  wshard_markers df highlight = Some (s, f, w, c) ->
  length s = length df /\ length f = length df /\
  length w = length df /\ length c = length df.
Proof.
  unfold wshard_markers. destruct highlight as [i |].
  - destruct (setitem (replicate (length df) 4) i 8) as [s' |] eqn:Hs;
      [| discriminate].
    destruct (setitem (replicate (length df) translucent_red) i opaque_red)
      as [f' |] eqn:Hf; [| discriminate].
    destruct (setitem (replicate (length df) 0) i 2) as [w' |] eqn:Hw;
      [| discriminate].
    destruct (setitem (replicate (length df) white) i green) as [c' |] eqn:Hc;
      [| discriminate].
    simpl. intros [= <- <- <- <-].
    apply setitem_length in Hs. apply setitem_length in Hf.
    apply setitem_length in Hw. apply setitem_length in Hc.
    rewrite length_replicate in Hs. rewrite length_replicate in Hf.
    rewrite length_replicate in Hw. rewrite length_replicate in Hc. auto.
  - intros [= <- <- <- <-]. rewrite !length_replicate. auto.
Qed.

(** X13. Every figure that is built, with or without a highlight and also
    for a negative position, has marker arrays as long as the table: the
    sizes, border widths and border colours of both series, the colour
    values of the first series and the fill colours of the second one have
    one entry per record. *)
Theorem build_marker_lengths (df : frame) (highlight : option Z)
    (fig : figure) :
  build df highlight = Some fig ->
  exists (a b : scatter) (fills : list string),
    fig_data fig = [a; b] /\
    marker_color (trace_marker a) = ByValue (map Odyssey_Drop df) /\
    marker_color (trace_marker b) = ByName fills /\
    length fills = length df /\
    length (marker_size (trace_marker a)) = length df /\
    length (line_width (marker_line_ (trace_marker a))) = length df /\
    length (line_color (marker_line_ (trace_marker a))) = length df /\
    length (marker_size (trace_marker b)) = length df /\
    length (line_width (marker_line_ (trace_marker b))) = length df /\
    length (line_color (marker_line_ (trace_marker b))) = length df.
Proof.
  unfold build. intros H.
  destruct (drop_markers df highlight) as [[[s1 w1] c1] |] eqn:Hm;
    [| discriminate].
  destruct (wshard_markers df highlight) as [[[[s2 f2] w2] c2] |] eqn:Hw;
    [| discriminate].
  simpl in H. injection H as <-.
  apply drop_markers_length in Hm as (? & ? & ?).
  apply wshard_markers_length in Hw as (? & ? & ? & ?).
  eexists _, _, _. split; [reflexivity |]. simpl. auto 12.
Qed.

Lemma build_marker_lengths_witness :
  marker_sizes_of <$> build short_df (Some (-2)) = Some [[12; 6]; [8; 4]].
Proof.
  destruct (build short_df (Some (-2))) as [fig |] eqn:Hfig; [| discriminate].
  destruct (build_marker_lengths short_df (Some (-2)) fig Hfig)
    as (a & b & fills & _).
  vm_compute in Hfig. injection Hfig as <-. reflexivity.
Defined.